(** * rush-nnue, [pgn-reader.py]: the PGN to "FEN;EVAL" extraction pipeline

    A shallow embedding of the four parts of [src/pgn-reader.py]:

    - the record splitter, the [for line in stdin] loop of [main];
    - [FastGameBuilder], the visitor that python-chess's [read_game] drives;
    - [worker_main], which replays a parsed game and builds a batch;
    - [print_results], which prints batches and reports progress.

    python-chess itself (the PGN grammar, the chess rules, the [%eval]
    regular expression) is not part of the repository.  The chess rules and
    the annotation matcher are parameters of the development; the small
    [Score] / [PovScore] algebra of [chess.engine] is written out, because
    the sign of the printed score depends on it. *)

From Stdlib Require Import List String Ascii Bool Arith ZArith NArith Lia.
From Stdlib Require Import DecimalString.
Import ListNotations.

(** ** Text *)

Module Text.

(** A Python [str] read from [stdin] is a sequence of Unicode code points. *)
Definition pystr := list N.

(** [str.isspace] on one code point: general category Zs, or bidirectional
    class WS, B or S. *)
Definition is_whitespace (c : N) : bool :=
  ((9 <=? c) && (c <=? 13) ||
   (28 <=? c) && (c <=? 32) ||
   (c =? 133) || (c =? 160) || (c =? 5760) ||
   (8192 <=? c) && (c <=? 8202) ||
   (c =? 8232) || (c =? 8233) || (c =? 8239) || (c =? 8287) ||
   (c =? 12288))%N.

(** [s.isspace()]: at least one character, and all of them whitespace. *)
Definition isspace (s : pystr) : bool :=
  match s with
  | [] => false
  | _ => forallb is_whitespace s
  end.

(** ["".join(lines)] *)
Definition join (lines : list pystr) : pystr := List.concat lines.

(** Code points of an ASCII literal, to write examples. *)
Fixpoint of_string (s : string) : pystr :=
  match s with
  | EmptyString => []
  | String a rest => N_of_ascii a :: of_string rest
  end.

(** A line that ends with a line feed. *)
Definition ln (s : string) : pystr := of_string s ++ [10%N].

(** [str(n)] for a Python [int]. *)
Definition str (z : Z) : string := NilZero.string_of_int (Z.to_int z).

End Text.

Import Text.

(** ** The record splitter ([main], the loop over [stdin]) *)

Module Splitter.

(** The loop's variables, and the chunks put on [in_queue] so far. *)
Record state := State {
  lines : list pystr;
  after_headers : bool;
  in_queue : list pystr
}.

Definition init : state := State [] false [].

(** One iteration of [for line in stdin]. *)
Definition step (st : state) (line : pystr) : state :=
  let st :=
    if isspace line then
      if after_headers st then
        State [] false (in_queue st ++ [join (lines st)])
      else
        State (lines st) true (in_queue st)
    else st in
  State (lines st ++ [line]) (after_headers st) (in_queue st).

Definition run (st : state) (stdin : list pystr) : state :=
  fold_left step stdin st.

(** The whole loop, from the first line to the end of the stream. *)
Definition main (stdin : list pystr) : state := run init stdin.

(** A well-formed record of the input: header lines, a blank line, movetext
    lines, a blank line. *)
Record block := Block {
  headers : list pystr;
  separator : pystr;
  movetext : list pystr;
  terminator : pystr
}.

Definition nonblank (ls : list pystr) : bool :=
  forallb (fun l => negb (isspace l)) ls.

Definition well_formed (b : block) : bool :=
  nonblank (headers b) && isspace (separator b) &&
  nonblank (movetext b) && isspace (terminator b).

Definition block_lines (b : block) : list pystr :=
  headers b ++ [separator b] ++ movetext b ++ [terminator b].

Definition stream (bs : list block) : list pystr := flat_map block_lines bs.

(** The chunks the loop emits on a stream of well-formed records: the blank
    line that ends a record is appended after the buffer was emitted and
    cleared, so it opens the next chunk. [carry] is what the buffer holds
    when the record starts. *)
Fixpoint chunks (carry : list pystr) (bs : list block) : list pystr :=
  match bs with
  | [] => []
  | b :: rest =>
      join (carry ++ headers b ++ [separator b] ++ movetext b)
        :: chunks [terminator b] rest
  end.

(** The text of a record as it stands in the input, which is what a chunk
    equal to "the original block" would be. *)
Definition original (b : block) : pystr := join (block_lines b).

(** A record of the input, for the examples. *)
Definition pgn_block : block :=
  Block [ln "[Event x]"] (ln "") [ln "1. e4 e5"] (ln "").

(** How many lines of a stream are blank. *)
Definition blank_count (stdin : list pystr) : nat :=
  List.length (filter isspace stdin).

(** The flag [after_headers] as a number. *)
Definition flag (b : bool) : nat := if b then 1 else 0.

(** The chunks the loop emits on well-formed records when it meets the
    first of them with the flag up, as after one stray blank line: the
    buffer is emitted at the blank line between headers and movetext, so
    that a chunk ends with the headers of a record and the next one starts
    with its movetext. *)
Fixpoint shifted_chunks (carry : list pystr) (bs : list block)
  : list pystr :=
  match bs with
  | [] => []
  | b :: rest =>
      join (carry ++ headers b)
        :: shifted_chunks ([separator b] ++ movetext b ++ [terminator b]) rest
  end.

End Splitter.

(** ** [chess.engine]: scores and points of view *)

Module Engine.

(** [chess.engine.Score]: [Cp(n)], [Mate(n)] or [MateGiven]. *)
Inductive Score :=
| Cp (cp : Z)
| Mate (moves : Z)
| MateGiven.

(** [Score.__neg__] *)
Definition neg (s : Score) : Score :=
  match s with
  | Cp n => Cp (- n)
  | Mate n => if (n =? 0)%Z then MateGiven else Mate (- n)
  | MateGiven => Mate 0
  end.

(** [Score.is_mate()] *)
Definition is_mate (s : Score) : bool :=
  match s with
  | Cp _ => false
  | _ => true
  end.

(** [Score.score()] without a [mate_score]: [None] on a mate score. *)
Definition score (s : Score) : option Z :=
  match s with
  | Cp n => Some n
  | _ => None
  end.

(** [chess.engine.PovScore]: a score relative to the side [turn];
    [true] is [chess.WHITE]. *)
Record PovScore := Pov {
  relative : Score;
  turn : bool
}.

(** [PovScore.white()] *)
Definition white (p : PovScore) : Score :=
  if turn p then relative p else neg (relative p).

End Engine.

Import Engine.

(** ** The chess capability the pipeline relies on *)

(** What the program takes from python-chess: moves, a board that is reset,
    pushed to and printed as a FEN, and the [%eval] matcher of
    [GameNode.eval], which finds the first evaluation written in a comment
    ([Cp] of the value in centipawns, or [Mate] of the distance). *)
Class Chess := {
  Move : Type;
  Board : Type;
  reset : Board;
  push : Board -> Move -> Board;
  fen : Board -> string;
  eval_match : string -> option Score
}.

(** ** [chess.pgn]: game nodes and [FastGameBuilder] *)

Module Pgn.
Section WithChess.
Context {chess : Chess}.

(** A node of the game after the root: its move and its comment. *)
Record GameNode := Node {
  move : Move;
  comment : string
}.

(** The game [FastGameBuilder] builds. [variation_stack] has one slot, which
    holds the node added last, and [visit_move] only ever adds a child to
    that node: the tree is the root followed by one chain, [mainline], the
    nodes [game.next()] walks.  The tip is the last node of the chain, or
    the root when the chain is empty. *)
Record Game := MkGame {
  root_comment : string;
  mainline : list GameNode
}.

(** [GameNode.eval()] of a node [ply] half-moves after the root, with its
    comment.  [visit_header] is a no-op, so the game has no FEN header and
    [turn()] is [ply % 2 == 0].  python-chess returns
    [PovScore(score if turn else -score, turn)], and [PovScore(score, turn)]
    for a mate in 0. *)
Definition node_eval (ply : nat) (c : string) : option PovScore :=
  match eval_match c with
  | None => None
  | Some s =>
      let turn := Nat.even ply in
      match s with
      | Mate 0 => Some (Pov s turn)
      | _ => Some (Pov (if turn then s else neg s) turn)
      end
  end.

(** [variation_stack[0].comment] *)
Definition tip_comment (g : Game) : string :=
  last (map comment (mainline g)) (root_comment g).

Fixpoint annotate_last (c : string) (nodes : list GameNode) : list GameNode :=
  match nodes with
  | [] => []
  | n :: rest =>
      match rest with
      | [] => [Node (move n) c]
      | _ => n :: annotate_last c rest
      end
  end.

(** [variation_stack[0].comment = comment] *)
Definition set_tip_comment (c : string) (g : Game) : Game :=
  match mainline g with
  | [] => MkGame c []
  | nodes => MkGame (root_comment g) (annotate_last c nodes)
  end.

(** [variation_stack[0].eval()] *)
Definition tip_eval (g : Game) : option PovScore :=
  node_eval (List.length (mainline g)) (tip_comment g).

(** [variation_stack[0] = variation_stack[0].add_variation(move=move)]: a
    child of the tip, with an empty comment, becomes the tip. *)
Definition add_variation (m : Move) (g : Game) : Game :=
  MkGame (root_comment g) (mainline g ++ [Node m ""%string]).

(** The outcome of a callback, or of the parse: it returns, or [Skip] is
    raised. [Skip] is a [BaseException], which python-chess does not catch. *)
Inductive Parse (A : Type) :=
| Done (a : A)
| Skip.
Arguments Done {A} a.
Arguments Skip {A}.

Definition bind {A B} (p : Parse A) (k : A -> Parse B) : Parse B :=
  match p with
  | Done a => k a
  | Skip => Skip
  end.

(** The visitor's fields. *)
Record FastGameBuilder := Builder {
  game : Game;
  first : bool
}.

Definition begin_game : FastGameBuilder :=
  Builder (MkGame ""%string []) true.

Definition visit_comment (v : FastGameBuilder) (c : string)
  : Parse FastGameBuilder :=
  let g := set_tip_comment c (game v) in
  if first v && match tip_eval g with None => true | Some _ => false end
  then Skip
  else Done (Builder g false).

Definition visit_move (v : FastGameBuilder) (m : Move)
  : Parse FastGameBuilder :=
  Done (Builder (add_variation m (game v)) (first v)).

Definition handle_error (v : FastGameBuilder) (error : string)
  : Parse FastGameBuilder :=
  Skip.

(** The callbacks [read_game] makes on the movetext and headers of one
    chunk.  [San m] is a move token that [parse_san] accepted, followed by
    [visit_move]; [Error] is a token it rejected, followed by
    [handle_error].  [begin_variation] of [FastGameBuilder] returns [None],
    not [SKIP], so python-chess goes on to parse the variation and calls
    [visit_move] and [visit_comment] for what it holds. *)
Inductive Event :=
| Header (tagname tagvalue : string)
| San (m : Move)
| Comment (c : string)
| Nag (nag : Z)
| BeginVariation
| EndVariation
| Result (result : string)
| Error (error : string).

Definition visit (v : FastGameBuilder) (e : Event) : Parse FastGameBuilder :=
  match e with
  | Header _ _ => Done v
  | San m => visit_move v m
  | Comment c => visit_comment v c
  | Nag _ => Done v
  | BeginVariation => Done v
  | EndVariation => Done v
  | Result _ => Done v
  | Error error => handle_error v error
  end.

Fixpoint drive (v : FastGameBuilder) (events : list Event)
  : Parse FastGameBuilder :=
  match events with
  | [] => Done v
  | e :: rest => bind (visit v e) (fun v' => drive v' rest)
  end.

(** The text of the first comment of a chunk, whichever node it follows. *)
Fixpoint first_comment (events : list Event) : option string :=
  match events with
  | [] => None
  | Comment c :: _ => Some c
  | _ :: rest => first_comment rest
  end.

Definition unparseable (c : string) : bool :=
  match eval_match c with
  | None => true
  | Some _ => false
  end.

(** The first comment of the chunk does not hold an evaluation. *)
Definition first_comment_unparseable (events : list Event) : bool :=
  match first_comment events with
  | Some c => unparseable c
  | None => false
  end.

Definition is_error (e : Event) : bool :=
  match e with
  | Error _ => true
  | _ => false
  end.

(** The parser reports an error somewhere in the chunk. *)
Definition has_error (events : list Event) : bool := existsb is_error events.

(** The first comment of the chunk comes before any move, so that it is
    attached to the root, and does not hold an evaluation. *)
Fixpoint root_comment_unparseable (events : list Event) : bool :=
  match events with
  | [] => false
  | Comment c :: _ => unparseable c
  | San _ :: _ => false
  | _ :: rest => root_comment_unparseable rest
  end.

(** The moves the parser hands to [visit_move], in order, those of
    variations included. *)
Fixpoint visited_moves (events : list Event) : list Move :=
  match events with
  | [] => []
  | San m :: rest => m :: visited_moves rest
  | _ :: rest => visited_moves rest
  end.

(** Headers, annotation glyphs and the result marker: the callbacks that
    are no-ops and say nothing about moves. *)
Definition is_ignored (e : Event) : bool :=
  match e with
  | Header _ _ | Nag _ | Result _ => true
  | _ => false
  end.

(** A ply of a record: the move, and the comment that follows it. *)
Record Ply := MkPly {
  ply_move : Move;
  ply_comment : string
}.

Definition ply_events (p : Ply) : list Event :=
  [San (ply_move p); Comment (ply_comment p)].

(** A chunk as [read_game] sees it: [None] when it holds no game (the
    handle is at its end, or has only blank lines), else the callbacks made
    between [begin_game] and [end_game]. *)
Definition Chunk := option (list Event).

(** [chess.pgn.read_game(chunk, Visitor=FastGameBuilder)] *)
Definition read_game (chunk : Chunk) : Parse (option Game) :=
  match chunk with
  | None => Done None
  | Some events =>
      bind (drive begin_game events) (fun v => Done (Some (game v)))
  end.

End WithChess.
Arguments Done {A} a.
Arguments Skip {A}.
End Pgn.

Import Pgn.

(** ** [worker_main] *)

Module Worker.
Section WithChess.
Context {chess : Chess}.

(** A batch is a list of lines ["<fen>;<eval>"]. *)
Definition Batch := list string.

(** [f"{board.fen()};{white_eval.score()}"]; a [None] score would print as
    ["None"]. *)
Definition line (board : Board) (white_eval : Score) : string :=
  (fen board ++ ";" ++
   match score white_eval with
   | Some n => str n
   | None => "None"
   end)%string.

(** The loop [while game := game.next()], entered with the board, the depth
    of the next node, the nodes still to visit and the batch so far.  A
    [PovScore] has neither [__bool__] nor [__len__], so [not evaluation]
    holds for [None] only. *)
Fixpoint walk (board : Board) (ply : nat) (nodes : list GameNode)
  (batch : Batch) : Board * Batch :=
  match nodes with
  | [] => (board, batch)
  | node :: rest =>
      let board := push board (move node) in
      match node_eval ply (comment node) with
      | None => walk board (S ply) rest batch
      | Some evaluation =>
          let white_eval := white evaluation in
          if is_mate white_eval then walk board (S ply) rest batch
          else walk board (S ply) rest (batch ++ [line board white_eval])
      end
  end.

(** What one iteration of [while True] comes to. *)
Inductive Iteration :=
| Continue
| Break
| Put (board : Board) (batch : Batch).

(** One iteration of the loop of [worker_main], for the chunk that
    [in_queue.get()] returned: [continue] when [Skip] is raised, [break]
    when there is no game, else the board is reset, the game is walked and
    the batch is put on [res_queue]. *)
Definition iteration (chunk : Chunk) : Iteration :=
  match read_game chunk with
  | Skip => Continue
  | Done None => Break
  | Done (Some game) =>
      let '(board, batch) := walk reset 1 (mainline game) [] in
      Put board batch
  end.

(** [worker_main], run on the chunks it gets from [in_queue], in the order
    it gets them: the board it is left with and the batches it has put on
    [res_queue].  It stops for good at a chunk without a game; when the
    chunks run out it waits in [in_queue.get()]. *)
Fixpoint worker_main (board : Board) (in_queue : list Chunk)
  : Board * list Batch :=
  match in_queue with
  | [] => (board, [])
  | chunk :: rest =>
      match iteration chunk with
      | Continue => worker_main board rest
      | Break => (board, [])
      | Put board batch =>
          let '(board, res_queue) := worker_main board rest in
          (board, batch :: res_queue)
      end
  end.

(** The board after the moves of [nodes]. *)
Definition replay (board : Board) (nodes : list GameNode) : Board :=
  fold_left (fun b n => push b (move n)) nodes board.

(** What one node adds to the batch, [board] being the board after its
    move. *)
Definition contribution (board : Board) (ply : nat) (node : GameNode)
  : Batch :=
  match node_eval ply (comment node) with
  | None => []
  | Some evaluation =>
      if is_mate (white evaluation) then []
      else [line board (white evaluation)]
  end.

(** The batch of a game, node by node. *)
Fixpoint contributions (board : Board) (ply : nat) (nodes : list GameNode)
  : Batch :=
  match nodes with
  | [] => []
  | node :: rest =>
      contribution (push board (move node)) ply node
        ++ contributions (push board (move node)) (S ply) rest
  end.

(** The comment of the node holds a centipawn evaluation. *)
Definition has_centipawns (node : GameNode) : bool :=
  match eval_match (comment node) with
  | Some (Cp _) => true
  | _ => false
  end.

(** The centipawn value written in a comment, if there is one. *)
Definition centipawns (c : string) : option Z :=
  match eval_match c with
  | Some (Cp n) => Some n
  | _ => None
  end.



(** The node the visitor builds for a ply. *)
Definition ply_node (p : Ply) : GameNode :=
  Node (ply_move p) (ply_comment p).



End WithChess.
End Worker.

(** ** [print_results] *)

Module Collector.

(** What [print_results] writes: a line on standard output, or the progress
    line on standard error, of which the two numbers shown are kept,
    [pos_count // 1000] and [bytes_count] (printed in megabytes). *)
Inductive Output :=
| Stdout (res : string)
| Stderr (kilo_positions : Z) (bytes : Z).

(** The loop's variables. *)
Record state := State {
  pos_count : Z;
  bytes_count : Z;
  update : Z
}.

Definition init : state := State 0 0 100.

(** [for res in batch: print(res); bytes_count += len(res)+1] *)
Fixpoint print_batch (bytes_count : Z) (batch : list string)
  : Z * list Output :=
  match batch with
  | [] => (bytes_count, [])
  | res :: rest =>
      let '(bytes_count', out) :=
        print_batch (bytes_count + Z.of_nat (String.length res) + 1) rest in
      (bytes_count', Stdout res :: out)
  end.

(** One iteration of [while True], for the batch [res_queue.get()]
    returned. *)
Definition step (st : state) (batch : list string) : state * list Output :=
  let pos_count := (pos_count st + Z.of_nat (List.length batch))%Z in
  let '(bytes_count, out) := print_batch (bytes_count st) batch in
  if (update st =? 100)%Z then
    (State pos_count bytes_count 0,
     out ++ [Stderr (pos_count / 1000) bytes_count])
  else
    (State pos_count bytes_count (update st + 1), out).

(** The loop on the batches that arrive, from the state [st]. *)
Fixpoint run (st : state) (res_queue : list (list string))
  : state * list Output :=
  match res_queue with
  | [] => (st, [])
  | batch :: rest =>
      let '(st', out) := step st batch in
      let '(st'', out') := run st' rest in
      (st'', out ++ out')
  end.

Definition print_results (res_queue : list (list string))
  : state * list Output :=
  run init res_queue.

Definition is_progress (o : Output) : bool :=
  match o with
  | Stderr _ _ => true
  | Stdout _ => false
  end.

(** The lines written on standard output, in order. *)
Fixpoint stdout (out : list Output) : list string :=
  match out with
  | [] => []
  | Stdout res :: rest => res :: stdout rest
  | Stderr _ _ :: rest => stdout rest
  end.

(** The progress lines written on standard error, in order. *)
Definition stderr (out : list Output) : list Output :=
  filter is_progress out.

(** The bytes [print_results] counts for lines: each line and its line
    feed. *)
Definition bytes_of (lines : list string) : Z :=
  fold_right (fun res n => (Z.of_nat (String.length res) + 1 + n)%Z) 0%Z
    lines.

(** The progress lines of an output tell the truth about what stands
    before them: [count] lines and [bytes] bytes have been printed already;
    each progress line shows the thousands of lines and the bytes printed
    on standard output up to it. *)
Fixpoint reports (count bytes : Z) (out : list Output) : Prop :=
  match out with
  | [] => True
  | Stdout res :: rest =>
      reports (count + 1) (bytes + Z.of_nat (String.length res) + 1) rest
  | Stderr k b :: rest =>
      k = (count / 1000)%Z /\ b = bytes /\ reports count bytes rest
  end.

End Collector.

(** ** A stand-in for python-chess, to run the model on concrete records *)

Module Sample.

(** Moves in UCI notation; the board is the list of moves pushed since the
    reset, and its position string lists them. The matcher knows the
    annotations used in the examples. *)
Definition sample_eval (c : string) : option Score :=
  if (c =? "[%eval 0.30]")%string then Some (Cp 30)
  else if (c =? "[%eval 0.25]")%string then Some (Cp 25)
  else if (c =? "[%eval -0.12]")%string then Some (Cp (-12))
  else if (c =? "[%eval #-3]")%string then Some (Mate (-3))
  else None.

#[export] Instance chess : Chess := {|
  Move := string;
  Board := list string;
  reset := [];
  push := fun b m => b ++ [m];
  fen := fun b => String.concat " " b;
  eval_match := sample_eval
|}.

Definition e4 : string := "e2e4".
Definition e5 : string := "e7e5".
Definition d4 : string := "d2d4".
Definition nf3 : string := "g1f3".
Definition plus30 : string := "[%eval 0.30]".
Definition plus25 : string := "[%eval 0.25]".
Definition minus12 : string := "[%eval -0.12]".
Definition mate3 : string := "[%eval #-3]".
Definition book : string := "book move".

(** [1. e4 { [%eval 0.30] } e5 { [%eval 0.25] } *], with a header. *)
Definition evaluated_events : list Event :=
  [Header "Event" "x"; San e4; Comment plus30; San e5; Comment plus25;
   Result "*"].

Definition evaluated_game : Chunk := Some evaluated_events.


(** [1. e4 { book move } e5]: the first comment follows a move and holds no
    evaluation. *)
Definition commented_events : list Event := [San e4; Comment book; San e5].

Definition commented_game : Chunk := Some commented_events.

(** [1. e4 { [%eval 0.30] } ( 1. d4 { [%eval 0.25] } ) 1... e5
    { [%eval -0.12] }]: a game with a variation. *)
Definition game_with_variation : Chunk :=
  Some [San e4; Comment plus30;
        BeginVariation; San d4; Comment plus25; EndVariation;
        San e5; Comment minus12].

(** A batch of one line, for the examples of [print_results]. *)
Definition one_line : list string := ["e2e4;30"%string].

End Sample.

(** * Properties *)

(** ** The record splitter *)

Module SplitterFacts.
Import Splitter.

Lemma run_app (st : state) (xs ys : list pystr) :
  run st (xs ++ ys) = run (run st xs) ys.
Proof. apply fold_left_app. Qed.

Lemma run_cons (st : state) (l : pystr) (ls : list pystr) :
  run st (l :: ls) = run (step st l) ls.
Proof. reflexivity. Qed.

Lemma step_nonblank (st : state) (l : pystr) :
  isspace l = false ->
  step st l = State (lines st ++ [l]) (after_headers st) (in_queue st).
Proof. intros E. unfold step. rewrite E. reflexivity. Qed.

(** Lines that are not blank only grow the buffer. *)
Lemma run_nonblank (ls : list pystr) : forall st,
  nonblank ls = true ->
  run st ls = State (lines st ++ ls) (after_headers st) (in_queue st).
Proof.
  induction ls as [|l ls IH]; intros st H.
  - simpl. rewrite app_nil_r. now destruct st.
  - simpl in H. apply andb_true_iff in H as [Hl Hls].
    apply negb_true_iff in Hl.
    rewrite run_cons, (step_nonblank _ _ Hl), (IH _ Hls). simpl.
    now rewrite <- app_assoc.
Qed.

(** The first blank line after the headers only sets the flag. *)
Lemma step_separator (st : state) (l : pystr) :
  isspace l = true -> after_headers st = false ->
  step st l = State (lines st ++ [l]) true (in_queue st).
Proof. intros E F. unfold step. rewrite E, F. reflexivity. Qed.

(** The blank line after the movetext emits the buffer and then starts the
    next one. *)
Lemma step_terminator (st : state) (l : pystr) :
  isspace l = true -> after_headers st = true ->
  step st l = State [l] false (in_queue st ++ [join (lines st)]).
Proof. intros E F. unfold step. rewrite E, F. reflexivity. Qed.

(** Header lines, a blank line and movetext lines, from a state in which the
    flag is down: nothing is emitted. *)
Lemma run_partial (st : state) (hs : list pystr) (sep : pystr)
  (mt : list pystr) :
  after_headers st = false ->
  nonblank hs = true -> isspace sep = true -> nonblank mt = true ->
  run st (hs ++ [sep] ++ mt)
  = State (lines st ++ hs ++ [sep] ++ mt) true (in_queue st).
Proof.
  intros F Hh Hs Hm.
  rewrite run_app, (run_nonblank _ _ Hh).
  change ([sep] ++ mt) with (sep :: mt).
  rewrite run_cons, (step_separator _ _ Hs) by exact F.
  rewrite (run_nonblank _ _ Hm). simpl.
  now rewrite <- !app_assoc.
Qed.

Lemma run_block (st : state) (b : block) :
  after_headers st = false -> well_formed b = true ->
  run st (block_lines b)
  = State [terminator b] false
      (in_queue st
         ++ [join (lines st ++ headers b ++ [separator b] ++ movetext b)]).
Proof.
  intros F W. unfold well_formed in W.
  apply andb_true_iff in W as [W Ht].
  apply andb_true_iff in W as [W Hm].
  apply andb_true_iff in W as [Hh Hs].
  unfold block_lines.
  replace (headers b ++ [separator b] ++ movetext b ++ [terminator b])
    with ((headers b ++ [separator b] ++ movetext b) ++ [terminator b])
    by now rewrite <- !app_assoc.
  rewrite run_app, (run_partial _ _ _ _ F Hh Hs Hm).
  change (run ?s [terminator b]) with (step s (terminator b)).
  now rewrite (step_terminator _ _ Ht).
Qed.

(** A stream of well-formed records, from a state in which the flag is
    down. *)
Lemma run_stream (bs : list block) : forall st,
  after_headers st = false ->
  Forall (fun b => well_formed b = true) bs ->
  in_queue (run st (stream bs)) = in_queue st ++ chunks (lines st) bs /\
  after_headers (run st (stream bs)) = false.
Proof.
  induction bs as [|b bs IH]; intros st F W; simpl.
  - now rewrite app_nil_r.
  - inversion W as [|? ? Wb Wbs]; subst.
    rewrite run_app, (run_block _ _ F Wb).
    destruct (IH (State [terminator b] false
                    (in_queue st ++
                     [join (lines st ++ headers b ++ [separator b]
                              ++ movetext b)])) eq_refl Wbs) as [Q A].
    rewrite Q, A. simpl. now rewrite <- app_assoc.
Qed.

Lemma chunks_length (bs : list block) : forall carry,
  List.length (chunks carry bs) = List.length bs.
Proof. induction bs as [|b bs IH]; intros carry; simpl; auto. Qed.

(** C5, as the claim states it, fails: on one well-formed record the chunk
    put on the queue is not the record's text, its closing blank line is
    missing. *)
Lemma splitter_original_block_counterexample :
  well_formed pgn_block = true /\
  in_queue (main (stream [pgn_block])) <> map original [pgn_block].
Proof. split; [reflexivity | discriminate]. Qed.

(** C5 (amended): on K well-formed records (headers, blank line, movetext,
    blank line) the splitter puts exactly K chunks on the work queue; the
    i-th is the i-th record's header lines, its separating blank line and
    its movetext lines, without the blank line that ends the record; that
    line opens the next chunk instead. *)
Theorem splitter_well_formed_records (bs : list block) :
  Forall (fun b => well_formed b = true) bs ->
  in_queue (main (stream bs)) = chunks [] bs /\
  List.length (in_queue (main (stream bs))) = List.length bs.
Proof.
  intros W. destruct (run_stream bs init eq_refl W) as [Q _].
  unfold main. rewrite Q. simpl. split; [reflexivity | apply chunks_length].
Qed.

Lemma splitter_well_formed_records_witness :
  Forall (fun b => well_formed b = true) [pgn_block; pgn_block] /\
  in_queue (main (stream [pgn_block; pgn_block]))
  = chunks [] [pgn_block; pgn_block] /\
  List.length (in_queue (main (stream [pgn_block; pgn_block]))) = 2.
Proof.
  assert (W : Forall (fun b => well_formed b = true) [pgn_block; pgn_block])
    by (repeat constructor).
  split; [exact W | exact (splitter_well_formed_records _ W)].
Defined.



End SplitterFacts.

(** ** [FastGameBuilder] *)

Module PgnFacts.
Section WithChess.
Context {chess : Chess}.

Lemma annotate_last_snoc (c : string) (n : GameNode) : forall nodes,
  annotate_last c (nodes ++ [n]) = nodes ++ [Node (move n) c].
Proof.
  induction nodes as [|a nodes IH]; simpl; [reflexivity|].
  rewrite IH. destruct nodes; reflexivity.
Qed.

Lemma annotate_last_moves (c : string) : forall nodes,
  map move (annotate_last c nodes) = map move nodes.
Proof.
  induction nodes as [|a [|b nodes] IH]; simpl in *; try reflexivity.
  now rewrite IH.
Qed.

Lemma last_annotate_last (c d : string) : forall nodes,
  nodes <> [] -> last (map comment (annotate_last c nodes)) d = c.
Proof.
  induction nodes as [|a [|b nodes] IH]; intros H; [congruence | reflexivity |].
  change (annotate_last c (a :: b :: nodes))
    with (a :: annotate_last c (b :: nodes)).
  assert (Hb : b :: nodes <> []) by discriminate.
  specialize (IH Hb).
  remember (annotate_last c (b :: nodes)) as l eqn:El.
  destruct l as [|x l]; [destruct nodes; discriminate El|].
  exact IH.
Qed.

Lemma set_tip_comment_moves (c : string) (g : Game) :
  map move (mainline (set_tip_comment c g)) = map move (mainline g).
Proof.
  unfold set_tip_comment.
  destruct (mainline g) as [|n nodes] eqn:E; [reflexivity|].
  cbn [mainline]. apply annotate_last_moves.
Qed.

(** The comment just set on the tip is the one read back. *)
Lemma tip_comment_set (c : string) (g : Game) :
  tip_comment (set_tip_comment c g) = c.
Proof.
  unfold tip_comment, set_tip_comment.
  destruct (mainline g) as [|n nodes] eqn:E; [reflexivity|].
  cbn [mainline root_comment].
  apply last_annotate_last. discriminate.
Qed.

Lemma node_eval_none (ply : nat) (c : string) :
  node_eval ply c = None <-> eval_match c = None.
Proof.
  unfold node_eval. destruct (eval_match c) as [s|]; [|tauto].
  split; [|discriminate].
  destruct s as [n|n|]; try discriminate.
  destruct n; discriminate.
Qed.

(** The test [variation_stack[0].eval() is None] only looks at the comment
    just set. *)
Lemma visit_comment_eq (v : FastGameBuilder) (c : string) :
  visit_comment v c
  = if first v && unparseable c then Skip
    else Done (Builder (set_tip_comment c (game v)) false).
Proof.
  unfold visit_comment, tip_eval, unparseable.
  rewrite tip_comment_set.
  pose proof (node_eval_none
                (List.length (mainline (set_tip_comment c (game v)))) c)
    as [N1 N2].
  destruct (node_eval _ c) as [ev|].
  - destruct (eval_match c); [reflexivity | discriminate (N2 eq_refl)].
  - now rewrite (N1 eq_refl).
Qed.

(** [visit_comment] raises [Skip] exactly when the flag [first] is up and
    the comment holds no evaluation. *)
Lemma visit_comment_skip (v : FastGameBuilder) (c : string) :
  visit_comment v c = Skip <-> first v = true /\ unparseable c = true.
Proof.
  rewrite visit_comment_eq.
  destruct (first v), (unparseable c); simpl;
    split; try discriminate; try tauto; intros [? ?]; discriminate.
Qed.

Lemma visit_comment_done (v : FastGameBuilder) (c : string) :
  first v && unparseable c = false ->
  visit_comment v c = Done (Builder (set_tip_comment c (game v)) false).
Proof. intros H. now rewrite visit_comment_eq, H. Qed.

(** Headers, glyphs, result markers and both variation markers leave the
    visitor as it is. *)
Lemma visit_noop (v : FastGameBuilder) (e : Event) :
  match e with
  | Header _ _ | Nag _ | Result _ | BeginVariation | EndVariation => True
  | _ => False
  end ->
  visit v e = Done v.
Proof. destruct e; simpl; tauto. Qed.

(** Once a first comment was accepted only an error aborts the parse. *)
Lemma drive_skip_later (events : list Event) : forall v,
  first v = false ->
  (drive v events = Skip <-> has_error events = true).
Proof.
  induction events as [|e events IH]; intros v F; simpl.
  - split; discriminate.
  - destruct e; simpl; try (apply IH; exact F).
    + rewrite visit_comment_done by (rewrite F; reflexivity).
      simpl. apply IH. reflexivity.
    + tauto.
Qed.

(** Before the first comment, an error aborts the parse, and so does a
    first comment without an evaluation. *)
Lemma drive_skip_first (events : list Event) : forall v,
  first v = true ->
  (drive v events = Skip <->
   first_comment_unparseable events = true \/ has_error events = true).
Proof.
  unfold first_comment_unparseable.
  induction events as [|e events IH]; intros v F; simpl.
  - split; [discriminate | intros [H|H]; discriminate].
  - destruct e; simpl; try (apply IH; exact F).
    + destruct (unparseable c) eqn:U.
      * assert (S : visit_comment v c = Skip)
          by (apply visit_comment_skip; auto).
        rewrite S. simpl. tauto.
      * rewrite visit_comment_done by (rewrite F, U; reflexivity).
        simpl. rewrite drive_skip_later by reflexivity.
        split; [auto | intros [H|H]; [discriminate | exact H]].
    + tauto.
Qed.

Lemma read_game_skip (events : list Event) :
  read_game (Some events) = Skip <->
  first_comment_unparseable events = true \/ has_error events = true.
Proof.
  rewrite <- (drive_skip_first events begin_game eq_refl).
  unfold read_game. destruct (drive begin_game events); simpl;
    split; intros H; solve [discriminate | reflexivity].
Qed.

Lemma first_comment_app (pre post : list Event) (c : string) :
  first_comment pre = None ->
  first_comment (pre ++ Comment c :: post) = Some c.
Proof.
  induction pre as [|e pre IH]; simpl; [reflexivity|].
  destruct e; auto; discriminate.
Qed.

(** Every move handed to [visit_move] ends up in the chain of the game, in
    the order of the calls, whether or not it stands between a
    [begin_variation] and an [end_variation]. *)
Lemma drive_moves (events : list Event) : forall v v',
  drive v events = Done v' ->
  map move (mainline (game v'))
  = map move (mainline (game v)) ++ visited_moves events.
Proof.
  induction events as [|e events IH]; intros v v' H; simpl in H.
  - injection H as <-. simpl. now rewrite app_nil_r.
  - destruct e; simpl in H; try (apply IH in H; exact H).
    + (* San *)
      apply IH in H. rewrite H. simpl. rewrite map_app, <- app_assoc.
      reflexivity.
    + (* Comment *)
      destruct (visit_comment v c) as [w|] eqn:E; [|discriminate].
      simpl in H. apply IH in H. rewrite H. f_equal.
      unfold visit_comment in E. destruct (first v && _); [discriminate|].
      injection E as <-. cbn [game]. apply set_tip_comment_moves.
    + discriminate.
Qed.

(** Callbacks that are no-ops can be left out of the chunk. *)
Lemma drive_filter (events : list Event) : forall v,
  drive v events = drive v (filter (fun e => negb (is_ignored e)) events).
Proof.
  induction events as [|e events IH]; intros v; [reflexivity|].
  destruct e; simpl; try apply IH; try reflexivity.
  destruct (visit_comment v c); simpl; auto.
Qed.

(** A comment that follows a move is the comment of that move's node. *)
Lemma set_tip_comment_add (c : string) (m : Move) (g : Game) :
  set_tip_comment c (add_variation m g)
  = MkGame (root_comment g) (mainline g ++ [Node m c]).
Proof.
  unfold set_tip_comment, add_variation. cbn [mainline root_comment].
  destruct (mainline g ++ [Node m ""%string]) as [|n nodes] eqn:E.
  - destruct (mainline g); discriminate.
  - rewrite <- E. now rewrite annotate_last_snoc.
Qed.


End WithChess.
End PgnFacts.

(** ** [worker_main] *)

Module WorkerFacts.
Import Worker PgnFacts.
Section WithChess.
Context {chess : Chess}.

Lemma neg_is_mate (s : Score) : is_mate (neg s) = is_mate s.
Proof. destruct s as [n|n|]; simpl; auto. destruct (n =? 0)%Z; auto. Qed.

(** What [GameNode.eval()] followed by [white()] gives back, at any depth:
    a mate for a mate, and the centipawns that were written. *)
Lemma white_node_eval (ply : nat) (c : string) (s : Score) :
  eval_match c = Some s ->
  exists ev, node_eval ply c = Some ev /\
             is_mate (white ev) = is_mate s /\
             (forall n, s = Cp n -> white ev = Cp n).
Proof.
  intros E. unfold node_eval. rewrite E.
  destruct s as [n|n|].
  - eexists; split; [reflexivity|]. unfold white; simpl.
    destruct (Nat.even ply); simpl; split; auto;
      intros k [= ->]; auto. now rewrite Z.opp_involutive.
  - destruct n as [|q|q];
      (eexists; split; [reflexivity|]); unfold white; simpl;
      (split; [destruct (Nat.even ply); reflexivity | discriminate]).
  - eexists; split; [reflexivity|]. unfold white; simpl.
    split; [destruct (Nat.even ply); reflexivity | discriminate].
Qed.

Lemma contribution_centipawns (board : Board) (ply : nat) (node : GameNode)
  (n : Z) :
  centipawns (comment node) = Some n ->
  contribution board ply node = [(fen board ++ ";" ++ str n)%string].
Proof.
  unfold centipawns, contribution. intros C.
  destruct (eval_match (comment node)) as [[k|k|]|] eqn:E; try discriminate.
  injection C as ->.
  destruct (white_node_eval ply _ _ E) as (ev & -> & M & W).
  rewrite M, (W n eq_refl). reflexivity.
Qed.

Lemma contribution_none (board : Board) (ply : nat) (node : GameNode) :
  centipawns (comment node) = None ->
  contribution board ply node = [].
Proof.
  unfold centipawns, contribution. intros C.
  destruct (eval_match (comment node)) as [s|] eqn:E.
  - destruct (white_node_eval ply _ _ E) as (ev & -> & M & _).
    rewrite M. destruct s; [discriminate | reflexivity | reflexivity].
  - assert (N : node_eval ply (comment node) = None)
      by now apply node_eval_none.
    now rewrite N.
Qed.

(** The loop pushes every move and appends each node's lines, in order. *)
Lemma walk_contributions (nodes : list GameNode) : forall board ply batch,
  walk board ply nodes batch
  = (replay board nodes, batch ++ contributions board ply nodes).
Proof.
  induction nodes as [|node nodes IH]; intros board ply batch; simpl.
  - now rewrite app_nil_r.
  - unfold contribution.
    destruct (node_eval ply (comment node)) as [ev|]; [|apply IH].
    destruct (is_mate (white ev)); [apply IH|].
    rewrite IH. now rewrite <- app_assoc.
Qed.

Lemma walk_app (pre post : list GameNode) : forall board ply batch,
  walk board ply (pre ++ post) batch
  = walk (fst (walk board ply pre batch)) (ply + List.length pre) post
      (snd (walk board ply pre batch)).
Proof.
  induction pre as [|node pre IH]; intros board ply batch.
  - simpl. now rewrite Nat.add_0_r.
  - cbn [walk app List.length].
    replace (ply + S (List.length pre)) with (S ply + List.length pre)
      by lia.
    destruct (node_eval ply (comment node)) as [ev|]; [|apply IH].
    destruct (is_mate (white ev)); apply IH.
Qed.

Lemma replay_moves (nodes : list GameNode) : forall board,
  replay board nodes = fold_left push (map move nodes) board.
Proof.
  unfold replay. induction nodes as [|n nodes IH]; intros board; simpl; auto.
Qed.








(** C3 (amended): when the parse of a chunk is aborted, by a first comment
    without an evaluation or by a parse error, the worker puts nothing on
    the result queue for that chunk, not even an empty batch: it goes
    straight to the next chunk, with its board as it was. *)
Theorem skipped_chunk_puts_no_batch
  (board : Board) (chunk : Chunk) (rest : list Chunk) :
  read_game chunk = Skip ->
  worker_main board (chunk :: rest) = worker_main board rest.
Proof. intros S. cbn [worker_main]. unfold iteration. now rewrite S. Qed.

(** C2 (amended): the parse of a chunk is aborted with [Skip] exactly when
    its first comment holds no evaluation, whichever node that comment is
    attached to (the root, or the node of a move already added), or when
    the parser reports an error.  When the first comment holds no
    evaluation, the outcome is [Skip] whatever follows the comment, so
    nothing after it is processed, and the worker puts no batch for the
    chunk. *)
Theorem fast_exit_on_first_comment :
  (forall events,
     read_game (Some events) = Skip <->
     first_comment_unparseable events = true \/ has_error events = true) /\
  (forall pre c post board rest,
     first_comment pre = None -> unparseable c = true ->
     read_game (Some (pre ++ Comment c :: post)) = Skip /\
     worker_main board (Some (pre ++ Comment c :: post) :: rest)
     = worker_main board rest).
Proof.
  split; [exact read_game_skip|].
  intros pre c post board rest P U.
  assert (S : read_game (Some (pre ++ Comment c :: post)) = Skip).
  { apply read_game_skip. left. unfold first_comment_unparseable.
    now rewrite (first_comment_app _ post _ P). }
  split; [exact S|].
  cbn [worker_main]. unfold iteration. now rewrite S.
Qed.

(** C4: a node whose comment holds a mate score, or is empty (the move has
    no comment), or holds no evaluation, adds no line to the batch: its
    move is pushed and the loop goes on with the batch as it was.  The
    batch has as many lines as there are nodes with centipawns. *)
Theorem unevaluated_ply_adds_nothing
  (board : Board) (ply : nat) (pre post : list GameNode) (node : GameNode)
  (batch : Batch) :
  eval_match ""%string = None ->
  (exists s, eval_match (comment node) = Some s /\ is_mate s = true) \/
  comment node = ""%string \/
  eval_match (comment node) = None ->
  walk board ply (pre ++ node :: post) batch
  = walk (push (fst (walk board ply pre batch)) (move node))
      (S (ply + List.length pre)) post (snd (walk board ply pre batch)) /\
  forall nodes,
    List.length (snd (walk board ply nodes []))
    = List.length (filter has_centipawns nodes).
Proof.
  intros E0 H. split.
  - assert (C : centipawns (comment node) = None).
    { unfold centipawns. destruct H as [(s & E & M)|[E|E]].
      - rewrite E. destruct s; [discriminate M | reflexivity | reflexivity].
      - now rewrite E, E0.
      - now rewrite E. }
    rewrite walk_app. cbn [walk].
    pose proof (contribution_none
                  (push (fst (walk board ply pre batch)) (move node))
                  (ply + List.length pre) node C) as N.
    unfold contribution in N.
    destruct (node_eval (ply + List.length pre) (comment node)) as [ev|];
      [|reflexivity].
    destruct (is_mate (white ev)); [reflexivity | discriminate N].
  - intros nodes. rewrite walk_contributions. cbn [snd app].
    revert board ply. clear.
    induction nodes as [|n nodes IH]; intros board ply; [reflexivity|].
    cbn [contributions filter]. rewrite length_app, IH.
    unfold has_centipawns.
    destruct (centipawns (comment n)) as [k|] eqn:C.
    + rewrite (contribution_centipawns _ _ _ _ C).
      unfold centipawns in C.
      destruct (eval_match (comment n)) as [[?|?|]|]; try discriminate.
      reflexivity.
    + rewrite (contribution_none _ _ _ C).
      unfold centipawns in C.
      destruct (eval_match (comment n)) as [[?|?|]|]; try discriminate;
        reflexivity.
Qed.

(** C10: the score printed for a node is its evaluation seen from White.
    [eval()] gives a score relative to the side to move at the node; the
    line holds [w], the centipawns of [white()] of it, which is that
    relative score when White is to move and its opposite when Black is,
    and which is the value written in the comment, at every depth. *)
Theorem score_is_white_point_of_view
  (board : Board) (ply : nat) (node : GameNode) (ev : PovScore)
  (batch : Batch) :
  node_eval ply (comment node) = Some ev ->
  is_mate (white ev) = false ->
  exists w,
    white ev = Cp w /\
    relative ev = Cp (if turn ev then w else - w) /\
    turn ev = Nat.even ply /\
    eval_match (comment node) = Some (Cp w) /\
    walk board ply [node] batch
    = (push board (move node),
       batch ++ [(fen (push board (move node)) ++ ";" ++ str w)%string]).
Proof.
  intros E M. cbn [walk]. rewrite E, M.
  unfold node_eval in E.
  destruct (eval_match (comment node)) as [s|]; [|discriminate].
  destruct s as [n|n|].
  - injection E as <-. exists n. unfold white, line in *. cbn in *.
    destruct (Nat.even ply); cbn;
      rewrite ?Z.opp_involutive; repeat split; reflexivity.
  - exfalso. destruct n; injection E as <-; unfold white in M; cbn in M;
      destruct (Nat.even ply); discriminate M.
  - exfalso. injection E as <-. unfold white in M. cbn in M.
    destruct (Nat.even ply); discriminate M.
Qed.

(** The chain of the game returned holds every move the parser visited. *)
Lemma read_game_moves (events : list Event) (g : Game) :
  read_game (Some events) = Done (Some g) ->
  map move (mainline g) = visited_moves events.
Proof.
  unfold read_game. destruct (drive begin_game events) as [v|] eqn:D;
    [|discriminate].
  intros [= <-]. now rewrite (drive_moves _ _ _ D).
Qed.

End WithChess.

(** *** The theorems at concrete records *)

Import Sample.


(** C3, as the claim states it, fails: the parse of this chunk is aborted,
    and the worker puts no batch at all on the result queue, where the
    claim expects one empty batch. *)
Lemma skipped_chunk_counterexample :
  read_game commented_game = Skip /\
  snd (worker_main [] [commented_game]) = [] /\
  snd (worker_main [] [commented_game]) <> [[]].
Proof. split; [reflexivity | split; [reflexivity | discriminate]]. Qed.

Lemma skipped_chunk_puts_no_batch_witness :
  read_game commented_game = Skip /\
  worker_main [] [commented_game; evaluated_game]
  = worker_main [] [evaluated_game].
Proof.
  split; [reflexivity|].
  exact (skipped_chunk_puts_no_batch
           [] commented_game [evaluated_game] eq_refl).
Defined.

(** C2, as the claim states it, fails: here a move was added before the
    first comment, which is attached to that move's node and not to the
    root, and the parse is aborted all the same. *)
Lemma fast_exit_root_comment_counterexample :
  read_game (Some commented_events) = Skip /\
  root_comment_unparseable commented_events = false.
Proof. split; reflexivity. Qed.

Lemma fast_exit_on_first_comment_witness :
  first_comment [San e4] = None /\
  unparseable book = true /\
  read_game (Some ([San e4] ++ Comment book :: [San e5])) = Skip /\
  worker_main [] [Some ([San e4] ++ Comment book :: [San e5]);
                  evaluated_game]
  = worker_main [] [evaluated_game].
Proof.
  split; [reflexivity|]. split; [reflexivity|].
  exact (proj2 fast_exit_on_first_comment
           [San e4] book [San e5] [] [evaluated_game] eq_refl eq_refl).
Defined.

Lemma unevaluated_ply_adds_nothing_witness :
  eval_match ""%string = None /\
  eval_match mate3 = Some (Mate (-3)) /\
  walk [] 1 ([Node e4 plus30] ++ Node e5 mate3 :: [Node nf3 plus25]) []
  = walk [e4; e5] 3 [Node nf3 plus25] ["e2e4;30"%string].
Proof.
  split; [reflexivity|]. split; [reflexivity|].
  exact (proj1 (unevaluated_ply_adds_nothing
                  [] 1 [Node e4 plus30] [Node nf3 plus25] (Node e5 mate3) []
                  eq_refl
                  (or_introl
                     (ex_intro _ (Mate (-3)) (conj eq_refl eq_refl))))).
Defined.

Lemma score_is_white_point_of_view_witness :
  node_eval 2 minus12 = Some (Pov (Cp (-12)) true) /\
  node_eval 1 minus12 = Some (Pov (Cp 12) false) /\
  exists w,
    white (Pov (Cp 12) false) = Cp w /\
    Cp 12 = Cp (- w) /\
    false = Nat.even 1 /\
    eval_match minus12 = Some (Cp w) /\
    walk [] 1 [Node e4 minus12] []
    = ([e4], [] ++ [(fen [e4] ++ ";" ++ str w)%string]).
Proof.
  split; [reflexivity|]. split; [reflexivity|].
  exact (score_is_white_point_of_view
           [] 1 (Node e4 minus12) (Pov (Cp 12) false) [] eq_refl eq_refl).
Defined.

(** C6, at a game with a variation: [begin_variation] and [end_variation]
    change nothing, and the move of the variation, [d2d4], handed to
    [visit_move] like any other, is added after [e2e4] in the one chain of
    the game.  The worker pushes it on the board and prints a line for it,
    and the line of [e7e5] is that of a board on which [d2d4] was
    played. *)
Theorem variation_moves_join_the_mainline :
  read_game game_with_variation
  = Done (Some (MkGame ""
                  [Node e4 plus30; Node d4 plus25; Node e5 minus12])) /\
  iteration game_with_variation
  = Put [e4; d4; e5]
      ["e2e4;30"; "e2e4 d2d4;25"; "e2e4 d2d4 e7e5;-12"]%string.
Proof. split; reflexivity. Qed.

End WorkerFacts.

(** ** [print_results] *)

Module CollectorFacts.
Import Collector.

(** The bytes of a batch as [print_results] counts them: each line and its
    line feed. *)
Lemma print_batch_spec (batch : list string) : forall bytes,
  print_batch bytes batch
  = ((bytes + fold_right
                (fun res n => Z.of_nat (String.length res) + 1 + n) 0 batch)%Z,
     map Stdout batch).
Proof.
  induction batch as [|res batch IH]; intros bytes;
    cbn [print_batch fold_right map].
  - now rewrite Z.add_0_r.
  - rewrite IH. f_equal. lia.
Qed.

Lemma stderr_app (xs ys : list Output) :
  stderr (xs ++ ys) = stderr xs ++ stderr ys.
Proof. apply filter_app. Qed.

Lemma stderr_map_stdout (batch : list string) : stderr (map Stdout batch) = [].
Proof. induction batch; simpl; auto. Qed.

Lemma stdout_app (xs ys : list Output) :
  stdout (xs ++ ys) = stdout xs ++ stdout ys.
Proof.
  induction xs as [|[res|k b] xs IH]; simpl; auto. now rewrite IH.
Qed.

Lemma stdout_map_stdout (batch : list string) :
  stdout (map Stdout batch) = batch.
Proof. induction batch; simpl; auto. now f_equal. Qed.

(** One iteration writes a progress line exactly when [update] is 100, and
    then starts counting again from 0. *)
Lemma step_progress (st : state) (batch : list string) :
  (update st = 100%Z /\
   update (fst (step st batch)) = 0%Z /\
   List.length (stderr (snd (step st batch))) = 1) \/
  (update st <> 100%Z /\
   update (fst (step st batch)) = (update st + 1)%Z /\
   List.length (stderr (snd (step st batch))) = 0).
Proof.
  unfold step. rewrite print_batch_spec.
  destruct (update st =? 100)%Z eqn:E; cbn [fst snd update].
  - left. apply Z.eqb_eq in E. rewrite stderr_app, stderr_map_stdout.
    auto.
  - right. apply Z.eqb_neq in E. rewrite stderr_map_stdout. auto.
Qed.

(** The number of progress lines written for [n] batches: one for the first
    batch, and then one for every 101 batches. *)
Lemma run_progress (res_queue : list (list string)) : forall st,
  (0 <= update st <= 100)%Z ->
  Z.of_nat (List.length (stderr (snd (run st res_queue))))
  = ((Z.of_nat (List.length res_queue) + update st) / 101)%Z.
Proof.
  induction res_queue as [|batch rest IH]; intros st U.
  - simpl. symmetry. apply Z.div_small. lia.
  - cbn [run].
    destruct (step st batch) as [st' out] eqn:S.
    destruct (run st' rest) as [st'' out'] eqn:R.
    cbn [snd]. rewrite stderr_app, length_app, Nat2Z.inj_add.
    pose proof (step_progress st batch) as P. rewrite S in P.
    cbn [fst snd] in P.
    assert (U' : (0 <= update st' <= 100)%Z) by lia.
    specialize (IH st' U'). rewrite R in IH. cbn [snd] in IH. rewrite IH.
    cbn [List.length]. rewrite Nat2Z.inj_succ.
    destruct P as [(E & E' & L)|(E & E' & L)]; rewrite L, E'.
    + rewrite E.
      replace (Z.succ (Z.of_nat (List.length rest)) + 100)%Z
        with (Z.of_nat (List.length rest) + 0 + 1 * 101)%Z by lia.
      rewrite Z.div_add by lia. lia.
    + change (Z.of_nat 0) with 0%Z. rewrite Z.add_0_l. f_equal. lia.
Qed.

Lemma progress_lines_count (res_queue : list (list string)) :
  Z.of_nat (List.length (stderr (snd (print_results res_queue))))
  = ((Z.of_nat (List.length res_queue) + 100) / 101)%Z.
Proof. apply (run_progress res_queue init). simpl. lia. Qed.

(** Standard output gets the lines of the batches, in order, and nothing
    else. *)
Lemma run_stdout (res_queue : list (list string)) : forall st,
  stdout (snd (run st res_queue)) = List.concat res_queue.
Proof.
  induction res_queue as [|batch rest IH]; intros st; [reflexivity|].
  cbn [run].
  destruct (step st batch) as [st' out] eqn:S.
  specialize (IH st'). destruct (run st' rest) as [st'' out'].
  cbn [snd] in *. rewrite stdout_app, IH. cbn [List.concat]. f_equal.
  unfold step in S. rewrite print_batch_spec in S.
  destruct (update st =? 100)%Z; injection S as _ <-.
  - rewrite stdout_app, stdout_map_stdout. simpl. apply app_nil_r.
  - apply stdout_map_stdout.
Qed.

(** [pos_count] is the number of lines printed so far. *)
Lemma run_pos_count (res_queue : list (list string)) : forall st,
  pos_count (fst (run st res_queue))
  = (pos_count st + Z.of_nat (List.length (List.concat res_queue)))%Z.
Proof.
  induction res_queue as [|batch rest IH]; intros st.
  - simpl. lia.
  - cbn [run].
    destruct (step st batch) as [st' out] eqn:S.
    specialize (IH st'). destruct (run st' rest) as [st'' out'].
    cbn [fst] in *. rewrite IH. cbn [List.concat].
    rewrite length_app, Nat2Z.inj_add.
    unfold step in S. rewrite print_batch_spec in S.
    destruct (update st =? 100)%Z; injection S as <- _; cbn [pos_count]; lia.
Qed.

(** C8, at 102 batches: a progress line is written for the first batch, no
    second one has been written when 101 batches are done, and the second
    is written for batch 102, which is 101 batches after the first and not
    100.  Progress goes to standard error only, and standard output holds
    the lines of the batches only. *)
Theorem progress_line_every_101_batches :
  List.length (stderr (snd (print_results (repeat Sample.one_line 1)))) = 1 /\
  List.length (stderr (snd (print_results (repeat Sample.one_line 101)))) = 1 /\
  List.length (stderr (snd (print_results (repeat Sample.one_line 102)))) = 2 /\
  stdout (snd (print_results (repeat Sample.one_line 102)))
  = List.concat (repeat Sample.one_line 102) /\
  fst (print_results (repeat Sample.one_line 102)) = State 102 816 0.
Proof. repeat split; vm_compute; reflexivity. Qed.

End CollectorFacts.

(** * Further properties *)

(** ** The record splitter on any stream *)

Module SplitterStream.
Import Splitter SplitterFacts.

Lemma join_app (xs ys : list pystr) : join (xs ++ ys) = join xs ++ join ys.
Proof. apply concat_app. Qed.

Lemma join_one (l : pystr) : join [l] = l.
Proof. unfold join. simpl. apply app_nil_r. Qed.

(** The emitted text and the buffered text, put end to end, are the text
    read so far. *)
Lemma run_conserves (stdin : list pystr) : forall st,
  join (in_queue (run st stdin)) ++ join (lines (run st stdin))
  = join (in_queue st) ++ join (lines st) ++ join stdin.
Proof.
  induction stdin as [|l stdin IH]; intros st.
  - cbn [run fold_left]. unfold join at 5. simpl. now rewrite app_nil_r.
  - rewrite run_cons, IH. unfold step.
    destruct (isspace l), (after_headers st);
      cbn [in_queue lines after_headers];
      rewrite ?join_app, ?join_one; cbn [join List.concat];
      rewrite <- ?app_assoc; reflexivity.
Qed.

(** X1: the splitter loses and reorders nothing of what it emits: the
    chunks put on the work queue, followed by the lines left in the buffer
    when the stream ends, are the input text, character for character.  The
    only input that reaches no worker is what is left in the buffer. *)
Theorem splitter_conserves_input (stdin : list pystr) :
  join (in_queue (main stdin)) ++ join (lines (main stdin)) = join stdin.
Proof. unfold main. now rewrite run_conserves. Qed.

Lemma run_counts (stdin : list pystr) : forall st,
  List.length (in_queue (run st stdin))
  = List.length (in_queue st)
    + Nat.div2 (blank_count stdin + flag (after_headers st)) /\
  after_headers (run st stdin)
  = Nat.odd (blank_count stdin + flag (after_headers st)).
Proof.
  unfold blank_count.
  induction stdin as [|l stdin IH]; intros st.
  - cbn [run fold_left filter List.length]. destruct (after_headers st);
      simpl; split; auto.
  - rewrite run_cons. destruct (IH (step st l)) as [Q A]. rewrite Q, A.
    unfold step. cbn [filter].
    destruct (isspace l), (after_headers st);
      cbn [in_queue after_headers List.length flag];
      rewrite ?length_app; cbn [List.length];
      rewrite ?Nat.add_0_r, ?Nat.add_1_r.
    + cbn [Nat.div2]. split; [lia | now rewrite Nat.odd_succ_succ].
    + split; reflexivity.
    + split; reflexivity.
    + split; reflexivity.
Qed.

(** X2: on any stream, the number of chunks put on the work queue is half
    the number of blank lines, rounded down: every second blank line emits
    a chunk, wherever it stands.  The flag is up at the end exactly when
    the number of blank lines is odd. *)
Theorem splitter_emits_at_every_second_blank_line (stdin : list pystr) :
  List.length (in_queue (main stdin)) = blank_count stdin / 2 /\
  after_headers (main stdin) = Nat.odd (blank_count stdin).
Proof.
  destruct (run_counts stdin init) as [Q A]. unfold main.
  rewrite Q, A. cbn [init in_queue after_headers flag List.length].
  rewrite Nat.add_0_r, Nat.div2_div. auto.
Qed.

(** A well-formed record met with the flag up: the buffer is emitted with
    the headers, at the blank line that separates them from the movetext,
    and the flag is up again after the record. *)
Lemma run_block_shifted (st : state) (b : block) :
  after_headers st = true -> well_formed b = true ->
  run st (block_lines b)
  = State ([separator b] ++ movetext b ++ [terminator b]) true
      (in_queue st ++ [join (lines st ++ headers b)]).
Proof.
  intros F W. unfold well_formed in W.
  apply andb_true_iff in W as [W Ht].
  apply andb_true_iff in W as [W Hm].
  apply andb_true_iff in W as [Hh Hs].
  unfold block_lines.
  rewrite run_app, (run_nonblank _ _ Hh).
  change ([separator b] ++ movetext b ++ [terminator b])
    with (separator b :: (movetext b ++ [terminator b])).
  rewrite run_cons, (step_terminator _ _ Hs) by exact F.
  rewrite run_app, (run_nonblank _ _ Hm).
  cbn [lines after_headers in_queue].
  change (run ?s [terminator b]) with (step s (terminator b)).
  rewrite (step_separator _ _ Ht) by reflexivity.
  cbn [lines after_headers in_queue]. now rewrite <- app_assoc.
Qed.

Lemma run_stream_shifted (bs : list block) : forall st,
  after_headers st = true ->
  Forall (fun b => well_formed b = true) bs ->
  in_queue (run st (stream bs))
  = in_queue st ++ shifted_chunks (lines st) bs.
Proof.
  induction bs as [|b bs IH]; intros st F W.
  - simpl. now rewrite app_nil_r.
  - inversion W as [|? ? Wb Wbs]; subst.
    change (stream (b :: bs)) with (block_lines b ++ stream bs).
    rewrite run_app, (run_block_shifted _ _ F Wb).
    rewrite (IH (State ([separator b] ++ movetext b ++ [terminator b]) true
                   (in_queue st ++ [join (lines st ++ headers b)]))
               eq_refl Wbs).
    cbn [in_queue lines shifted_chunks]. now rewrite <- app_assoc.
Qed.

(** X3: one blank line before the first record puts the splitter out of
    step for the rest of the stream: on well-formed records that follow it,
    each chunk is cut at the blank line between headers and movetext.  The
    first chunk is the stray line and the headers of the first record; each
    later chunk is the movetext of a record followed by the headers of the
    next record; the movetext of the last record is never emitted. *)
Theorem splitter_out_of_step_after_stray_blank_line
  (l : pystr) (bs : list block) :
  isspace l = true ->
  Forall (fun b => well_formed b = true) bs ->
  in_queue (main (l :: stream bs)) = shifted_chunks [l] bs.
Proof.
  intros L W. unfold main.
  rewrite run_cons, (step_separator _ _ L) by reflexivity.
  exact (run_stream_shifted bs (State [l] true []) eq_refl W).
Qed.

Lemma splitter_out_of_step_after_stray_blank_line_witness :
  isspace (ln "") = true /\
  Forall (fun b => well_formed b = true) [pgn_block; pgn_block] /\
  in_queue (main (ln "" :: stream [pgn_block; pgn_block]))
  = [ln "" ++ ln "[Event x]";
     ln "" ++ ln "1. e4 e5" ++ ln "" ++ ln "[Event x]"].
Proof.
  assert (W : Forall (fun b => well_formed b = true) [pgn_block; pgn_block])
    by (repeat constructor).
  split; [reflexivity|]. split; [exact W|].
  exact (splitter_out_of_step_after_stray_blank_line
           (ln "") [pgn_block; pgn_block] eq_refl W).
Defined.

End SplitterStream.

(** ** [FastGameBuilder] on any chunk *)

Module VisitorFacts.
Import Worker PgnFacts WorkerFacts.
Section WithChess.
Context {chess : Chess}.

Lemma annotate_last_nonempty (c : string) (nodes : list GameNode) :
  nodes <> [] -> annotate_last c nodes <> [].
Proof. destruct nodes as [|a [|b nodes]]; simpl; congruence. Qed.

Lemma annotate_last_twice (c1 c2 : string) : forall nodes,
  annotate_last c2 (annotate_last c1 nodes) = annotate_last c2 nodes.
Proof.
  induction nodes as [|a [|b nodes] IH]; try reflexivity.
  change (annotate_last c1 (a :: b :: nodes))
    with (a :: annotate_last c1 (b :: nodes)).
  change (annotate_last c2 (a :: b :: nodes))
    with (a :: annotate_last c2 (b :: nodes)).
  rewrite <- IH.
  pose proof (@annotate_last_nonempty c1 (b :: nodes)) as N.
  destruct (annotate_last c1 (b :: nodes)) as [|x l];
    [exfalso; apply N; [discriminate | reflexivity] | reflexivity].
Qed.

(** Setting the comment of the tip twice leaves the second comment only. *)
Lemma set_tip_comment_twice (c1 c2 : string) (g : Game) :
  set_tip_comment c2 (set_tip_comment c1 g) = set_tip_comment c2 g.
Proof.
  unfold set_tip_comment.
  destruct (mainline g) as [|n nodes] eqn:E; [reflexivity|].
  cbn [mainline root_comment].
  pose proof (@annotate_last_nonempty c1 (n :: nodes)) as N.
  destruct (annotate_last c1 (n :: nodes)) as [|x l] eqn:A;
    [exfalso; apply N; [discriminate | reflexivity]|].
  rewrite <- A, annotate_last_twice. reflexivity.
Qed.

(** X4: when two comments follow one another, the second replaces the
    first on the node: [visit_comment] assigns the comment, it does not
    append to it.  Of the first comment only the test of the fast exit
    remains; an evaluation written in it is lost. *)
Theorem later_comment_replaces_earlier
  (v : FastGameBuilder) (c1 c2 : string) (rest : list Event) :
  first v && unparseable c1 = false ->
  drive v (Comment c1 :: Comment c2 :: rest)
  = drive (Builder (set_tip_comment c2 (game v)) false) rest.
Proof.
  intros H. cbn [drive visit].
  rewrite (visit_comment_done _ _ H). cbn [bind].
  rewrite visit_comment_done by reflexivity.
  cbn [bind game]. now rewrite set_tip_comment_twice.
Qed.

(** With the flag down, moves and comments are all accepted. *)
Lemma drive_plies_later (plies : list Ply) : forall g,
  drive (Builder g false) (flat_map ply_events plies)
  = Done (Builder
            (MkGame (root_comment g) (mainline g ++ map ply_node plies))
            false).
Proof.
  induction plies as [|p plies IH]; intros g.
  - cbn [flat_map drive map]. rewrite app_nil_r. now destruct g.
  - cbn [flat_map ply_events app drive visit visit_move bind].
    rewrite visit_comment_done by reflexivity.
    cbn [bind game first]. rewrite set_tip_comment_add, IH.
    cbn [root_comment mainline map]. now rewrite <- app_assoc.
Qed.

(** X5: only the first comment of a game is tested.  When the comment of
    the first ply holds an evaluation (centipawns or mate), the parse is not
    aborted whatever the comments of the later plies hold, and the game
    returned has every ply, each with its comment. *)
Theorem first_comment_alone_decides
  (events : list Event) (p : Ply) (plies : list Ply) :
  filter (fun e => negb (is_ignored e)) events
  = flat_map ply_events (p :: plies) ->
  unparseable (ply_comment p) = false ->
  read_game (Some events)
  = Done (Some (MkGame ""%string (map ply_node (p :: plies)))).
Proof.
  intros F U. unfold read_game. rewrite drive_filter, F.
  cbn [flat_map ply_events app drive visit visit_move bind].
  rewrite visit_comment_done by (rewrite U; apply andb_false_r).
  cbn [bind game begin_game]. rewrite set_tip_comment_add.
  rewrite drive_plies_later. reflexivity.
Qed.




Lemma contributions_length (nodes : list GameNode) : forall board ply,
  List.length (contributions board ply nodes) <= List.length nodes.
Proof.
  induction nodes as [|n nodes IH]; intros board ply; [reflexivity|].
  cbn [contributions List.length]. rewrite length_app.
  specialize (IH (push board (move n)) (S ply)).
  unfold contribution.
  destruct (node_eval ply (comment n)) as [ev|]; [|simpl; lia].
  destruct (is_mate (white ev)); simpl; lia.
Qed.

(** X7: whenever a batch is put for a chunk, the board the worker is left
    with has had pushed, in order, every move the parser handed to
    [visit_move], and the batch has at most one line per such move. *)
Theorem worker_pushes_every_visited_move
  (events : list Event) (board : Board) (batch : Batch) :
  iteration (Some events) = Put board batch ->
  board = fold_left push (visited_moves events) reset /\
  List.length batch <= List.length (visited_moves events).
Proof.
  unfold iteration.
  destruct (read_game (Some events)) as [[g|]|] eqn:R; try discriminate.
  rewrite walk_contributions. intros [= <- <-].
  rewrite replay_moves, (read_game_moves _ _ R). split; [reflexivity|].
  rewrite <- (read_game_moves _ _ R), length_map. cbn [app].
  apply contributions_length.
Qed.

End WithChess.

Import Sample.

Lemma later_comment_replaces_earlier_witness :
  first (Builder (MkGame ""%string [Node e4 ""%string]) true)
    && unparseable plus30 = false /\
  drive (Builder (MkGame ""%string [Node e4 ""%string]) true)
    [Comment plus30; Comment book; San e5]
  = drive (Builder (MkGame ""%string [Node e4 book]) false) [San e5].
Proof.
  split; [reflexivity|].
  exact (later_comment_replaces_earlier
           (Builder (MkGame ""%string [Node e4 ""%string]) true)
           plus30 book [San e5] eq_refl).
Defined.

Lemma first_comment_alone_decides_witness :
  unparseable mate3 = false /\
  read_game (Some [San e4; Comment mate3; Nag 1; San e5; Comment book])
  = Done (Some (MkGame ""%string [Node e4 mate3; Node e5 book])).
Proof.
  split; [reflexivity|].
  exact (first_comment_alone_decides
           [San e4; Comment mate3; Nag 1; San e5; Comment book]
           (MkPly e4 mate3) [MkPly e5 book] eq_refl eq_refl).
Defined.


Lemma worker_pushes_every_visited_move_witness :
  iteration game_with_variation
  = Put [e4; d4; e5]
      ["e2e4;30"; "e2e4 d2d4;25"; "e2e4 d2d4 e7e5;-12"]%string /\
  [e4; d4; e5] = fold_left push [e4; d4; e5] reset /\
  3 <= 3.
Proof.
  split; [reflexivity|].
  exact (worker_pushes_every_visited_move
           [San e4; Comment plus30;
            BeginVariation; San d4; Comment plus25; EndVariation;
            San e5; Comment minus12]
           [e4; d4; e5]
           ["e2e4;30"; "e2e4 d2d4;25"; "e2e4 d2d4 e7e5;-12"]%string
           eq_refl).
Defined.

End VisitorFacts.

(** ** The loop of [worker_main] *)

Module WorkerLoop.
Import Worker PgnFacts WorkerFacts.
Section WithChess.
Context {chess : Chess}.

(** What is put for a chunk does not depend on the board the worker had:
    the board is reset before the game is walked. *)
Lemma worker_main_board (in_queue : list Chunk) : forall b1 b2,
  snd (worker_main b1 in_queue) = snd (worker_main b2 in_queue).
Proof.
  induction in_queue as [|chunk rest IH]; intros b1 b2; [reflexivity|].
  cbn [worker_main]. destruct (iteration chunk) as [| |board batch].
  - apply IH.
  - reflexivity.
  - reflexivity.
Qed.

(** X8: the batches a worker puts do not depend on the state of its board
    when it starts, nor therefore on the games it replayed before: the one
    board is reset for every game, and no position leaks from one record
    into the lines of the next. *)
Theorem worker_batches_ignore_initial_board
  (b1 b2 : Board) (in_queue : list Chunk) :
  snd (worker_main b1 in_queue) = snd (worker_main b2 in_queue).
Proof. apply worker_main_board. Qed.


(** X9: a chunk in which [read_game] finds no game ends the worker: the
    loop breaks, and the chunks that come after it on the queue are never
    parsed by this worker, whatever they hold. *)
Theorem worker_stops_at_chunk_without_game
  (board : Board) (pre post : list Chunk) :
  worker_main board (pre ++ None :: post) = worker_main board pre.
Proof.
  revert board. induction pre as [|chunk pre IH]; intros board.
  - reflexivity.
  - cbn [app worker_main]. destruct (iteration chunk) as [| |b batch].
    + apply IH.
    + reflexivity.
    + now rewrite IH.
Qed.



Lemma in_contribution (board : Board) (ply : nat) (node : GameNode)
  (l : string) :
  In l (contribution board ply node) ->
  exists n, centipawns (comment node) = Some n /\
            l = (fen board ++ ";" ++ str n)%string.
Proof.
  destruct (centipawns (comment node)) as [n|] eqn:C.
  - rewrite (contribution_centipawns _ _ _ _ C). intros [<-|[]].
    exists n. auto.
  - rewrite (contribution_none _ _ _ C). intros [].
Qed.

Lemma in_contributions (nodes : list GameNode) : forall board ply l,
  In l (contributions board ply nodes) ->
  exists pre node post n,
    nodes = pre ++ node :: post /\
    centipawns (comment node) = Some n /\
    l = (fen (replay board (pre ++ [node])) ++ ";" ++ str n)%string.
Proof.
  induction nodes as [|a nodes IH]; intros board ply l H; [destruct H|].
  cbn [contributions] in H. apply in_app_or in H as [H|H].
  - apply in_contribution in H as (n & C & ->).
    exists [], a, nodes, n. auto.
  - apply IH in H as (pre & node & post & n & -> & C & ->).
    exists (a :: pre), node, post, n. auto.
Qed.

(** X12: every line of a batch is the FEN of the board after the moves up
    to some node of the game, followed by [;] and the centipawns written in
    the comment of that node.  A batch never holds a line for a mate score
    or for a node without evaluation, and never the text [None] in place of
    a score. *)
Theorem batch_lines_are_centipawn_positions
  (board : Board) (ply : nat) (nodes : list GameNode) (l : string) :
  In l (snd (walk board ply nodes [])) ->
  exists pre node post n,
    nodes = pre ++ node :: post /\
    centipawns (comment node) = Some n /\
    l = (fen (replay board (pre ++ [node])) ++ ";" ++ str n)%string.
Proof.
  rewrite walk_contributions. cbn [snd app]. apply in_contributions.
Qed.

End WithChess.

Import Sample.



Lemma batch_lines_are_centipawn_positions_witness :
  In "e2e4 e7e5 g1f3;25"%string
    (snd (walk [] 1 [Node e4 plus30; Node e5 mate3; Node nf3 plus25] [])) /\
  exists pre node post n,
    [Node e4 plus30; Node e5 mate3; Node nf3 plus25] = pre ++ node :: post /\
    centipawns (comment node) = Some n /\
    "e2e4 e7e5 g1f3;25"%string
    = (fen (replay [] (pre ++ [node])) ++ ";" ++ str n)%string.
Proof.
  assert (H : In "e2e4 e7e5 g1f3;25"%string
                (snd (walk [] 1
                        [Node e4 plus30; Node e5 mate3; Node nf3 plus25] [])))
    by (right; left; reflexivity).
  split; [exact H|].
  exact (batch_lines_are_centipawn_positions [] 1
           [Node e4 plus30; Node e5 mate3; Node nf3 plus25]
           "e2e4 e7e5 g1f3;25"%string H).
Defined.

End WorkerLoop.

(** ** The totals of [print_results] *)

Module CollectorTotals.
Import Collector CollectorFacts.

Lemma bytes_of_app (xs ys : list string) :
  bytes_of (xs ++ ys) = (bytes_of xs + bytes_of ys)%Z.
Proof.
  unfold bytes_of. induction xs as [|x xs IH]; cbn [app fold_right];
    [reflexivity | rewrite IH; lia].
Qed.

(** The state after one iteration. *)
Lemma step_state (st : state) (batch : list string) :
  pos_count (fst (step st batch))
  = (pos_count st + Z.of_nat (List.length batch))%Z /\
  bytes_count (fst (step st batch)) = (bytes_count st + bytes_of batch)%Z /\
  update (fst (step st batch))
  = (if (update st =? 100)%Z then 0 else update st + 1)%Z /\
  stdout (snd (step st batch)) = batch.
Proof.
  unfold step. rewrite print_batch_spec. fold (bytes_of batch).
  destruct (update st =? 100)%Z; cbn [fst snd pos_count bytes_count update];
    rewrite ?stdout_app, stdout_map_stdout; cbn [stdout];
    rewrite ?app_nil_r; auto.
Qed.

Lemma run_state (res_queue : list (list string)) : forall st,
  (0 <= update st <= 100)%Z ->
  pos_count (fst (run st res_queue))
  = (pos_count st + Z.of_nat (List.length (List.concat res_queue)))%Z /\
  bytes_count (fst (run st res_queue))
  = (bytes_count st + bytes_of (List.concat res_queue))%Z /\
  update (fst (run st res_queue))
  = ((Z.of_nat (List.length res_queue) + update st) mod 101)%Z.
Proof.
  induction res_queue as [|batch rest IH]; intros st U.
  - cbn [run fst List.concat List.length bytes_of fold_right].
    rewrite Z.mod_small by lia. repeat split; lia.
  - cbn [run].
    pose proof (step_state st batch) as (P & B & Up & _).
    destruct (step st batch) as [st' out]. cbn [fst] in *.
    assert (U' : (0 <= update st' <= 100)%Z)
      by (rewrite Up; destruct (Z.eqb_spec (update st) 100); lia).
    destruct (IH st' U') as (P' & B' & Up').
    destruct (run st' rest) as [st'' out']. cbn [fst] in *.
    rewrite P', B', Up', P, B, Up.
    cbn [List.concat List.length]. rewrite length_app, bytes_of_app.
    repeat split; try lia.
    destruct (Z.eqb_spec (update st) 100) as [E|E].
    + rewrite E.
      replace (Z.of_nat (S (List.length rest)) + 100)%Z
        with (Z.of_nat (List.length rest) + 0 + 1 * 101)%Z by lia.
      now rewrite Z_mod_plus_full.
    + f_equal. lia.
Qed.

(** X13: standard output gets exactly the lines of the batches, in the
    order the batches arrive and in the order of each batch; progress lines
    never appear on it. *)
Theorem print_results_stdout (res_queue : list (list string)) :
  stdout (snd (print_results res_queue)) = List.concat res_queue.
Proof. apply run_stdout. Qed.

(** X14: after any number of batches, [pos_count] is the number of lines
    printed, [bytes_count] is the sum of their lengths plus one per line,
    and [update] is the number of batches since the last progress line,
    that is (n + 100) modulo 101 after n batches: it never leaves the range
    from 0 to 100. *)
Theorem print_results_totals (res_queue : list (list string)) :
  fst (print_results res_queue)
  = State (Z.of_nat (List.length (List.concat res_queue)))
      (bytes_of (List.concat res_queue))
      ((Z.of_nat (List.length res_queue) + 100) mod 101)%Z.
Proof.
  unfold print_results.
  destruct (run_state res_queue init) as (P & B & U);
    [cbn; lia|].
  destruct (fst (run init res_queue)) as [p b u].
  cbn [pos_count bytes_count update init] in *. subst. f_equal.
Qed.

(** X15: the batches for which a progress line is written are the first
    one and every 101st after it: handling the batch that follows [n]
    others writes a progress line exactly when [n] is a multiple of 101. *)
Theorem progress_line_positions
  (earlier : list (list string)) (batch : list string) :
  List.length (stderr (snd (step (fst (print_results earlier)) batch)))
  = if (Z.of_nat (List.length earlier) mod 101 =? 0)%Z then 1 else 0.
Proof.
  destruct (run_state earlier init) as (_ & _ & U); [cbn; lia|].
  fold (print_results earlier) in U. cbn [update init] in U.
  destruct (step_progress (fst (print_results earlier)) batch)
    as [(E & _ & L)|(E & _ & L)]; rewrite L; rewrite U in E.
  - destruct (Z.eqb_spec (Z.of_nat (List.length earlier) mod 101) 0)
      as [M|M]; [reflexivity|].
    exfalso. revert E M. generalize (Z.of_nat (List.length earlier)).
    intros z. Z.div_mod_to_equations. lia.
  - destruct (Z.eqb_spec (Z.of_nat (List.length earlier) mod 101) 0)
      as [M|M]; [|reflexivity].
    exfalso. revert E M. generalize (Z.of_nat (List.length earlier)).
    intros z. Z.div_mod_to_equations. lia.
Qed.

Lemma reports_app (xs : list Output) : forall count bytes ys,
  reports count bytes (xs ++ ys) <->
  reports count bytes xs /\
  reports (count + Z.of_nat (List.length (stdout xs)))
    (bytes + bytes_of (stdout xs)) ys.
Proof.
  induction xs as [|[res|k b] xs IH]; intros count bytes ys;
    cbn [app reports stdout List.length bytes_of fold_right].
  - rewrite !Z.add_0_r. tauto.
  - rewrite IH. fold (bytes_of (stdout xs)).
    replace (count + 1 + Z.of_nat (List.length (stdout xs)))%Z
      with (count + Z.of_nat (S (List.length (stdout xs))))%Z by lia.
    replace (bytes + Z.of_nat (String.length res) + 1
             + bytes_of (stdout xs))%Z
      with (bytes + (Z.of_nat (String.length res) + 1
                     + bytes_of (stdout xs)))%Z by lia.
    tauto.
  - rewrite IH. tauto.
Qed.

Lemma reports_map_stdout (batch : list string) : forall count bytes,
  reports count bytes (map Stdout batch).
Proof. induction batch as [|res batch IH]; intros; cbn; auto. Qed.

Lemma step_reports (st : state) (batch : list string) :
  reports (pos_count st) (bytes_count st) (snd (step st batch)).
Proof.
  unfold step. rewrite print_batch_spec. fold (bytes_of batch).
  destruct (update st =? 100)%Z; cbn [snd];
    [|apply reports_map_stdout].
  apply reports_app. split; [apply reports_map_stdout|].
  rewrite stdout_map_stdout. cbn [reports]. auto.
Qed.

Lemma run_reports (res_queue : list (list string)) : forall st,
  reports (pos_count st) (bytes_count st) (snd (run st res_queue)).
Proof.
  induction res_queue as [|batch rest IH]; intros st; [exact I|].
  cbn [run].
  pose proof (step_state st batch) as (P & B & _ & O).
  pose proof (step_reports st batch) as R.
  destruct (step st batch) as [st' out]. cbn [fst snd] in *.
  specialize (IH st'). destruct (run st' rest) as [st'' out'].
  cbn [snd] in *. apply reports_app. split; [exact R|].
  rewrite O, <- P, <- B. exact IH.
Qed.

(** X16: every progress line shows the totals of what was printed before
    it on standard output: the number of lines, in thousands rounded down,
    and the number of bytes, counting each line and its line feed. *)
Theorem progress_line_shows_totals_so_far
  (res_queue : list (list string)) (before after : list Output) (k b : Z) :
  snd (print_results res_queue) = before ++ Stderr k b :: after ->
  k = (Z.of_nat (List.length (stdout before)) / 1000)%Z /\
  b = bytes_of (stdout before).
Proof.
  intros E. pose proof (run_reports res_queue init) as R.
  fold (print_results res_queue) in R. rewrite E in R.
  apply reports_app in R as [_ R]. cbn [reports init pos_count bytes_count] in R.
  destruct R as (-> & -> & _). split; f_equal; lia.
Qed.

Lemma progress_line_shows_totals_so_far_witness :
  snd (print_results [["e2e4;30"; "e2e4 e7e5;25"]%string; []])
  = [Stdout "e2e4;30"; Stdout "e2e4 e7e5;25"] ++ Stderr 0 21 :: [] /\
  0%Z = (Z.of_nat
           (List.length (stdout [Stdout "e2e4;30"; Stdout "e2e4 e7e5;25"]))
         / 1000)%Z /\
  21%Z = bytes_of (stdout [Stdout "e2e4;30"; Stdout "e2e4 e7e5;25"]).
Proof.
  split; [reflexivity|].
  exact (progress_line_shows_totals_so_far
           [["e2e4;30"; "e2e4 e7e5;25"]%string; []]
           [Stdout "e2e4;30"; Stdout "e2e4 e7e5;25"] [] 0 21 eq_refl).
Defined.

End CollectorTotals.

(** ** The comment before the first move *)

Module StartingComment.
Import Worker PgnFacts WorkerFacts.
Section WithChess.
Context {chess : Chess}.

(** With the flag down, the chain that is built does not depend on the
    comment of the root. *)
Lemma drive_chain (events : list Event) : forall rc rc' nodes,
  match drive (Builder (MkGame rc nodes) false) events,
        drive (Builder (MkGame rc' nodes) false) events with
  | Done v, Done v' => mainline (game v) = mainline (game v')
  | Skip, Skip => True
  | _, _ => False
  end.
Proof.
  induction events as [|e events IH]; intros rc rc' nodes.
  - reflexivity.
  - destruct e; cbn [drive visit visit_move handle_error bind];
      try apply IH; try exact I.
    rewrite !visit_comment_done by reflexivity.
    cbn [bind game]. unfold set_tip_comment. cbn [mainline root_comment].
    destruct nodes as [|n nodes]; apply IH.
Qed.

(** X17: an evaluation written in a comment before the first move never
    reaches the output.  Such a comment is attached to the root, which the
    worker does not walk; if it holds an evaluation the game is kept, and
    what the worker does with the chunk is the same whatever that
    evaluation is. *)
Theorem starting_comment_evaluation_is_not_extracted
  (c c' : string) (events : list Event) :
  unparseable c = false -> unparseable c' = false ->
  iteration (Some (Comment c :: events))
  = iteration (Some (Comment c' :: events)).
Proof.
  intros U U'. unfold iteration, read_game.
  cbn [drive visit bind].
  rewrite !visit_comment_done
    by (first [rewrite U | rewrite U']; apply andb_false_r).
  cbn [bind game begin_game]. unfold set_tip_comment.
  cbn [mainline root_comment].
  pose proof (drive_chain events c c' []) as D.
  destruct (drive (Builder (MkGame c []) false) events) as [v|],
           (drive (Builder (MkGame c' []) false) events) as [v'|];
    try contradiction; cbn [bind]; [|reflexivity].
  now rewrite D.
Qed.

End WithChess.

Import Sample.

Lemma starting_comment_evaluation_is_not_extracted_witness :
  unparseable plus30 = false /\
  unparseable mate3 = false /\
  iteration (Some [Comment plus30; San e4; Comment book; San e5;
                   Comment plus25])
  = iteration (Some [Comment mate3; San e4; Comment book; San e5;
                     Comment plus25]).
Proof.
  split; [reflexivity|]. split; [reflexivity|].
  exact (starting_comment_evaluation_is_not_extracted
           plus30 mate3 [San e4; Comment book; San e5; Comment plus25]
           eq_refl eq_refl).
Defined.

End StartingComment.
